(** * Guardrail selector lambdas: response normalisation, session retry, ingestion polling

    A shallow embedding of the three pieces of logic of
    [infrastructure/lambda] that branch on the shape of their input:

    - [InvokeAgent.process_agent_response]: the fold over the agent's event
      stream that builds the [text] / [citations] / [traces] / [error] record;
    - [QueryKnowledgeBase.perform_retrieve_and_generate]: the single retry
      without [sessionId];
    - the wait loop of [SyncKnowledgeBase.handler].

    The handlers are dynamically typed Python, so the embedding starts with
    the Python values they inspect and with the handful of dynamic
    operations they apply to them ([in], subscripting, iteration, [hasattr],
    [.get], [.decode], truthiness), each of which returns an exception where
    the interpreter raises one. *)

From stdpp Require Import gmap strings list.
From Stdlib Require Import Strings.String Strings.Ascii Strings.Byte.
From Stdlib Require Import ZArith Lia Bool DecimalString.
Import ListNotations.

Set Warnings "-register-all".
Open Scope string_scope.

(* [simpl] computes [++] on strings again, as it does on lists. *)
Arguments String.append !_ _ / : simpl nomatch.

(* ===================================================================== *)
(** ** Python values and exceptions *)
(* ===================================================================== *)

Module Py.

(** A [str] is held as the UTF-8 encoding of its code points (a Rocq
    [string] is a list of 8-bit characters), so that ASCII literals of the
    source read the same here and [+] on [str] is [++]. A [dict] is an
    association list read by first match, in insertion order. [VObj] is an
    object whose fields are reached with dot access ([chunk.bytes]); it
    records its class name and its data attributes. *)
Inductive value : Type :=
| VNone
| VBool (b : bool)
| VInt (n : Z)
| VStr (s : string)
| VBytes (b : list byte)
| VList (l : list value)
| VDict (d : list (string * value))
| VObj (cls : string) (attrs : list (string * value)).

(** Position and reason reported by the UTF-8 codec. *)
Inductive utf8_reason : Type :=
| InvalidStartByte
| InvalidContinuationByte
| UnexpectedEndOfData.

Record utf8_error : Type := MkUtf8Error {
  ue_start : nat;          (* index of the first offending byte *)
  ue_end : nat;            (* index one past the last offending byte *)
  ue_reason : utf8_reason
}.

(** The exceptions (all subclasses of [Exception]) that the operations
    below raise. *)
Inductive exn : Type :=
| TypeError (msg : string)
| KeyError (key : string)
| AttributeError (msg : string)
| UnicodeDecodeError (data : list byte) (err : utf8_error).

(** Computations that may raise. *)
Inductive exc (A : Type) : Type :=
| Ok (a : A)
| Raise (e : exn).

Arguments Ok {A} a.
Arguments Raise {A} e.

Definition bind {A B : Type} (m : exc A) (k : A -> exc B) : exc B :=
  match m with
  | Ok a => k a
  | Raise e => Raise e
  end.

(** [for x in xs: st = body(x, st)], stopping at the first exception. *)
Fixpoint for_each {A S : Type} (body : A -> S -> exc S) (xs : list A) (st : S)
  : exc S :=
  match xs with
  | [] => Ok st
  | x :: xs' => bind (body x st) (for_each body xs')
  end.

(** *** Association lists as dicts *)

Fixpoint lookup_key {V : Type} (k : string) (d : list (string * V)) : option V :=
  match d with
  | [] => None
  | (k', v) :: d' => if String.eqb k k' then Some v else lookup_key k d'
  end.

Definition has_key {V : Type} (k : string) (d : list (string * V)) : bool :=
  match lookup_key k d with
  | Some _ => true
  | None => false
  end.

(** [d[k] = v]: replaces the binding in place, or appends a new one. *)
Fixpoint set_key {V : Type} (k : string) (v : V) (d : list (string * V))
  : list (string * V) :=
  match d with
  | [] => [(k, v)]
  | (k', v') :: d' =>
      if String.eqb k k' then (k, v) :: d' else (k', v') :: set_key k v d'
  end.

(** Keys in iteration order, each once. *)
Fixpoint keys {V : Type} (d : list (string * V)) : list string :=
  match d with
  | [] => []
  | (k, _) :: d' => k :: List.filter (fun k' => negb (String.eqb k' k)) (keys d')
  end.

(** *** Strings *)

Fixpoint is_prefix (p s : string) : bool :=
  match p, s with
  | EmptyString, _ => true
  | String a p', String b s' => Ascii.eqb a b && is_prefix p' s'
  | String _ _, EmptyString => false
  end.

(** [sub in s] for two [str]. *)
Fixpoint is_substring (sub s : string) : bool :=
  is_prefix sub s ||
  match s with
  | EmptyString => false
  | String _ s' => is_substring sub s'
  end.

Definition is_continuation (n : N) : bool :=
  ((128 <=? n) && (n <? 192))%N.

(** The characters of a [str], each as a one-character [str]: a lead byte
    with the continuation bytes that follow it. *)
Fixpoint chars_from (cur : option string) (s : string) : list string :=
  match s with
  | EmptyString =>
      match cur with
      | Some c => [c]
      | None => []
      end
  | String a s' =>
      if is_continuation (N_of_ascii a) then
        match cur with
        | Some c => chars_from (Some (c ++ String a EmptyString)) s'
        | None => chars_from (Some (String a EmptyString)) s'
        end
      else
        match cur with
        | Some c => c :: chars_from (Some (String a EmptyString)) s'
        | None => chars_from (Some (String a EmptyString)) s'
        end
  end.

Definition chars (s : string) : list string := chars_from None s.

(** *** The UTF-8 codec in strict mode *)

(** Scans [s], whose first byte has index [pos] in a buffer of [len] bytes;
    [None] when the bytes are well formed. *)
Fixpoint utf8_scan (len pos : nat) (s : list N) : option utf8_error :=
  let bad_start := Some (MkUtf8Error pos (pos + 1) InvalidStartByte) in
  let bad_cont k := Some (MkUtf8Error pos (pos + k) InvalidContinuationByte) in
  let truncated := Some (MkUtf8Error pos len UnexpectedEndOfData) in
  match s with
  | [] => None
  | ch :: rest =>
      if (ch <? 128)%N then utf8_scan len (pos + 1) rest
      else if (ch <? 224)%N then
        (* two bytes, U+0080 .. U+07FF *)
        if (ch <? 194)%N then bad_start
        else
          match rest with
          | [] => truncated
          | ch2 :: rest2 =>
              if negb (is_continuation ch2) then bad_cont 1
              else utf8_scan len (pos + 2) rest2
          end
      else if (ch <? 240)%N then
        (* three bytes, U+0800 .. U+FFFF without the surrogates *)
        match rest with
        | [] => truncated
        | ch2 :: rest2 =>
            if negb (is_continuation ch2)
               || (if (ch2 <? 160)%N then (ch =? 224)%N else (ch =? 237)%N)
            then bad_cont 1
            else
              match rest2 with
              | [] => truncated
              | ch3 :: rest3 =>
                  if negb (is_continuation ch3) then bad_cont 2
                  else utf8_scan len (pos + 3) rest3
              end
        end
      else if (ch <? 245)%N then
        (* four bytes, U+10000 .. U+10FFFF *)
        match rest with
        | [] => truncated
        | ch2 :: rest2 =>
            if negb (is_continuation ch2)
               || (if (ch2 <? 144)%N then (ch =? 240)%N else (ch =? 244)%N)
            then bad_cont 1
            else
              match rest2 with
              | [] => truncated
              | ch3 :: rest3 =>
                  if negb (is_continuation ch3) then bad_cont 2
                  else
                    match rest3 with
                    | [] => truncated
                    | ch4 :: rest4 =>
                        if negb (is_continuation ch4) then bad_cont 3
                        else utf8_scan len (pos + 4) rest4
                    end
              end
        end
      else bad_start
  end.

(** [b.decode('utf-8')] for [b] of type [bytes]. *)
Definition decode_utf8 (b : list byte) : exc string :=
  match utf8_scan (List.length b) 0 (List.map Byte.to_N b) with
  | None => Ok (string_of_list_byte b)
  | Some err => Raise (UnicodeDecodeError b err)
  end.

(** *** Dynamic operations *)

Definition type_name (v : value) : string :=
  match v with
  | VNone => "NoneType"
  | VBool _ => "bool"
  | VInt _ => "int"
  | VStr _ => "str"
  | VBytes _ => "bytes"
  | VList _ => "list"
  | VDict _ => "dict"
  | VObj cls _ => cls
  end.

(** [bool(v)]. *)
Definition truthy (v : value) : bool :=
  match v with
  | VNone => false
  | VBool b => b
  | VInt n => negb (n =? 0)%Z
  | VStr s => negb (String.eqb s "")
  | VBytes b => match b with [] => false | _ => true end
  | VList l => match l with [] => false | _ => true end
  | VDict d => match d with [] => false | _ => true end
  | VObj _ _ => true
  end.

Definition is_dict (v : value) : bool :=
  match v with
  | VDict _ => true
  | _ => false
  end.

Definition is_str_eq (k : string) (v : value) : bool :=
  match v with
  | VStr s => String.eqb s k
  | _ => false
  end.

(** [k in v] for a [str] literal [k]. *)
Definition contains (k : string) (v : value) : exc bool :=
  match v with
  | VDict d => Ok (has_key k d)
  | VStr s => Ok (is_substring k s)
  | VList l => Ok (List.existsb (is_str_eq k) l)
  | VBytes _ => Raise (TypeError "a bytes-like object is required, not 'str'")
  | _ => Raise (TypeError ("argument of type '" ++ type_name v ++ "' is not iterable"))
  end.

(** [v[k]] for a [str] literal [k]. *)
Definition getitem (v : value) (k : string) : exc value :=
  match v with
  | VDict d =>
      match lookup_key k d with
      | Some x => Ok x
      | None => Raise (KeyError k)
      end
  | VStr _ => Raise (TypeError "string indices must be integers, not 'str'")
  | VList _ => Raise (TypeError "list indices must be integers or slices, not str")
  | VBytes _ => Raise (TypeError "byte indices must be integers or slices, not str")
  | _ => Raise (TypeError ("'" ++ type_name v ++ "' object is not subscriptable"))
  end.

(** The items that [for x in v] (or [enumerate(v)]) goes through. *)
Definition iterate (v : value) : exc (list value) :=
  match v with
  | VList l => Ok l
  | VDict d => Ok (List.map VStr (keys d))
  | VStr s => Ok (List.map VStr (chars s))
  | VBytes b => Ok (List.map (fun x => VInt (Z.of_N (Byte.to_N x))) b)
  | _ => Raise (TypeError ("'" ++ type_name v ++ "' object is not iterable"))
  end.

(** [getattr(v, name, None)] on data attributes; the built-in types above
    have no attribute named [bytes], [attribution] or [citations]. *)
Definition attribute (v : value) (name : string) : option value :=
  match v with
  | VObj _ attrs => lookup_key name attrs
  | _ => None
  end.

Definition hasattr (v : value) (name : string) : bool :=
  match attribute v name with
  | Some _ => true
  | None => false
  end.

Definition no_attribute (v : value) (name : string) : exn :=
  AttributeError ("'" ++ type_name v ++ "' object has no attribute '" ++ name ++ "'").

Definition not_callable (v : value) : exn :=
  TypeError ("'" ++ type_name v ++ "' object is not callable").

(** [v.get(k)] and [v.get(k, default)]. *)
Definition method_get (v : value) (k : string) (default : value) : exc value :=
  match v with
  | VDict d =>
      match lookup_key k d with
      | Some x => Ok x
      | None => Ok default
      end
  | _ =>
      match attribute v "get" with
      | Some f => Raise (not_callable f)
      | None => Raise (no_attribute v "get")
      end
  end.

(** [v.decode('utf-8')]. *)
Definition method_decode (v : value) : exc string :=
  match v with
  | VBytes b => decode_utf8 b
  | _ =>
      match attribute v "decode" with
      | Some f => Raise (not_callable f)
      | None => Raise (no_attribute v "decode")
      end
  end.

Definition dquote : string := String (ascii_of_nat 34) EmptyString.

(** [s + v] for [s] of type [str]. *)
Definition str_concat (s : string) (v : value) : exc string :=
  match v with
  | VStr t => Ok (s ++ t)
  | _ =>
      Raise (TypeError ("can only concatenate str (not " ++ dquote
                        ++ type_name v ++ dquote ++ ") to str"))
  end.

(** *** [str(e)] *)

Definition decimal (n : nat) : string :=
  NilZero.string_of_uint (Nat.to_uint n).

Definition hex_digit (n : N) : string :=
  match List.nth_error
          ["0"; "1"; "2"; "3"; "4"; "5"; "6"; "7";
           "8"; "9"; "a"; "b"; "c"; "d"; "e"; "f"] (N.to_nat n) with
  | Some d => d
  | None => ""
  end.

Definition hex_byte (b : byte) : string :=
  hex_digit (N.div (Byte.to_N b) 16) ++ hex_digit (N.modulo (Byte.to_N b) 16).

Definition reason_text (r : utf8_reason) : string :=
  match r with
  | InvalidStartByte => "invalid start byte"
  | InvalidContinuationByte => "invalid continuation byte"
  | UnexpectedEndOfData => "unexpected end of data"
  end.

Definition str_of_exn (e : exn) : string :=
  match e with
  | TypeError msg => msg
  | AttributeError msg => msg
  | KeyError k => "'" ++ k ++ "'"
  | UnicodeDecodeError data err =>
      match List.nth_error data (ue_start err) with
      | Some b =>
          if Nat.eqb (ue_end err) (ue_start err + 1) then
            "'utf-8' codec can't decode byte 0x" ++ hex_byte b
            ++ " in position " ++ decimal (ue_start err)
            ++ ": " ++ reason_text (ue_reason err)
          else
            "'utf-8' codec can't decode bytes in position "
            ++ decimal (ue_start err) ++ "-" ++ decimal (ue_end err - 1)
            ++ ": " ++ reason_text (ue_reason err)
      | None =>
          "'utf-8' codec can't decode bytes in position "
          ++ decimal (ue_start err) ++ "-" ++ decimal (ue_end err - 1)
          ++ ": " ++ reason_text (ue_reason err)
      end
  end.

End Py.

Notation "x <- c1 ;; c2" := (Py.bind c1 (fun x => c2))
  (at level 100, c1 at next level, right associativity).

(* ===================================================================== *)
(** ** InvokeAgent.py: [process_agent_response] *)
(* ===================================================================== *)

Module InvokeAgent.
Import Py.

(** The [result] dict under construction. Its keys are assigned in a fixed
    order ([text], [citations], [traces] at creation, [error] inside the
    loop, [contentType] and [memoryId] after it), so a record with optional
    fields holds the same information; [to_dict] gives the dict back.
    Calls to [logger] have no effect on the value returned and are left
    out. *)
Record result : Type := MkResult {
  text : string;
  citations : list value;
  traces : list value;
  error : option value;
  contentType : option value;
  memoryId : option value
}.

Definition initial_result : result :=
  MkResult "" [] [] None None None.

Definition set_text (s : string) (r : result) : result :=
  MkResult s (citations r) (traces r) (error r) (contentType r) (memoryId r).

Definition append_citation (c : value) (r : result) : result :=
  MkResult (text r) (citations r ++ [c])%list (traces r) (error r)
           (contentType r) (memoryId r).

Definition append_trace (t : value) (r : result) : result :=
  MkResult (text r) (citations r) (traces r ++ [t])%list (error r)
           (contentType r) (memoryId r).

Definition set_error (e : value) (r : result) : result :=
  MkResult (text r) (citations r) (traces r) (Some e)
           (contentType r) (memoryId r).

Definition set_contentType (v : value) (r : result) : result :=
  MkResult (text r) (citations r) (traces r) (error r) (Some v) (memoryId r).

Definition set_memoryId (v : value) (r : result) : result :=
  MkResult (text r) (citations r) (traces r) (error r) (contentType r) (Some v).

Definition optional_item (k : string) (o : option value) : list (string * value) :=
  match o with
  | Some v => [(k, v)]
  | None => []
  end.

Definition to_dict (r : result) : value :=
  VDict ([("text", VStr (text r));
          ("citations", VList (citations r));
          ("traces", VList (traces r))]
         ++ optional_item "error" (error r)
         ++ optional_item "contentType" (contentType r)
         ++ optional_item "memoryId" (memoryId r)).

(** [if k in src: dst[k] = src[k]]. *)
Definition copy_key (src : value) (k : string) (dst : list (string * value))
  : exc (list (string * value)) :=
  present <- contains k src ;;
  if present then
    x <- getitem src k ;;
    Ok (set_key k x dst)
  else Ok dst.

(** [result['text'] += v]. *)
Definition add_text (v : value) (r : result) : exc result :=
  s <- str_concat (text r) v ;;
  Ok (set_text s r).

(** [hasattr(v, name) and v.name]: the attribute when it is there and
    truthy. *)
Definition truthy_attribute (v : value) (name : string) : option value :=
  match attribute v name with
  | Some a => if truthy a then Some a else None
  | None => None
  end.

(** Lines 176-191: the text carried by a chunk. *)
Definition add_chunk_text (chunk : value) (r : result) : exc result :=
  match truthy_attribute chunk "bytes" with
  | Some b =>
      chunk_text <- method_decode b ;;
      add_text (VStr chunk_text) r
  | None =>
      match chunk with
      | VDict d =>
          match lookup_key "bytes" d with
          | Some (VBytes b) =>
              chunk_text <- decode_utf8 b ;;
              add_text (VStr chunk_text) r
          | Some _ => Ok r
          | None =>
              match lookup_key "text" d with
              | Some t => add_text t r
              | None => Ok r
              end
          end
      | _ => Ok r
      end
  end.

(** Lines 213-231: one entry of [retrievedReferences]. *)
Definition reference_data (ref : value) : exc value :=
  let ref_data := [] in
  has_content <- contains "content" ref ;;
  ref_data <-
    (if has_content then
       content <- getitem ref "content" ;;
       match content with
       | VDict c =>
           match lookup_key "text" c with
           | Some t => Ok (set_key "content" t ref_data)
           | None => Ok ref_data
           end
       | _ => Ok ref_data
       end
     else Ok ref_data) ;;
  ref_data <- copy_key ref "location" ref_data ;;
  ref_data <- copy_key ref "metadata" ref_data ;;
  Ok (VDict ref_data).

(** Lines 211-231: the loop that fills [references]. *)
Definition collect_references (refs : list value) : exc (list value) :=
  for_each (fun ref references =>
              ref_data <- reference_data ref ;;
              Ok (references ++ [ref_data])%list)
           refs [].

(** Lines 199-233: one entry of [citations]. *)
Definition citation_data (citation : value) : exc value :=
  let citation_data := [] in
  has_part <- contains "generatedResponsePart" citation ;;
  has_text_part <-
    (if has_part then
       part <- getitem citation "generatedResponsePart" ;;
       contains "textResponsePart" part
     else Ok false) ;;
  citation_data <-
    (if has_text_part then
       part <- getitem citation "generatedResponsePart" ;;
       text_part <- getitem part "textResponsePart" ;;
       citation_data <- copy_key text_part "text" citation_data ;;
       copy_key text_part "span" citation_data
     else Ok citation_data) ;;
  has_references <- contains "retrievedReferences" citation ;;
  citation_data <-
    (if has_references then
       retrieved <- getitem citation "retrievedReferences" ;;
       refs <- iterate retrieved ;;
       references <- collect_references refs ;;
       Ok (set_key "references" (VList references) citation_data)
     else Ok citation_data) ;;
  Ok (VDict citation_data).

(** Lines 194-237: citations of a chunk that is a dict. *)
Definition add_dict_citations (chunk : value) (r : result) : exc result :=
  match chunk with
  | VDict d =>
      match lookup_key "attribution" d with
      | Some attribution =>
          has_citations <- contains "citations" attribution ;;
          if has_citations then
            cs <- getitem attribution "citations" ;;
            items <- iterate cs ;;
            for_each (fun citation r =>
                        c <- citation_data citation ;;
                        Ok (append_citation c r))
                     items r
          else Ok r
      | None => Ok r
      end
  | _ => Ok r
  end.

Definition attribute_citation : value :=
  VDict [("text", VStr "Citation from attribute access")].

(** Lines 240-248: citations reached by attribute access; an exception in
    this block is caught on the spot and logged. *)
Definition add_attribute_citations (chunk : value) (r : result) : result :=
  match attribute chunk "attribution" with
  | Some attribution =>
      match attribute attribution "citations" with
      | Some cs =>
          match iterate cs with
          | Ok items =>
              List.fold_left (fun r _ => append_citation attribute_citation r)
                             items r
          | Raise _ => r
          end
      | None => r
      end
  | None => r
  end.

(** Lines 173-248. *)
Definition process_chunk (chunk : value) (r : result) : exc result :=
  r <- add_chunk_text chunk r ;;
  r <- add_dict_citations chunk r ;;
  Ok (add_attribute_citations chunk r).

Definition trace_keys : list string :=
  ["agentId"; "agentAliasId"; "agentVersion"; "sessionId"].

(** Lines 264-275. *)
Definition guardrail_data (guardrail_trace : value) : exc value :=
  action <- method_get guardrail_trace "action" VNone ;;
  trace_id <- method_get guardrail_trace "traceId" VNone ;;
  let guardrail := [("action", action); ("traceId", trace_id)] in
  guardrail <- copy_key guardrail_trace "inputAssessments" guardrail ;;
  guardrail <- copy_key guardrail_trace "outputAssessments" guardrail ;;
  Ok (VDict guardrail).

(** Lines 278-282. *)
Definition orchestration_data (orchestration_trace : value) : exc value :=
  input <- method_get orchestration_trace "modelInvocationInput" VNone ;;
  output <- method_get orchestration_trace "modelInvocationOutput" VNone ;;
  Ok (VDict [("modelInvocationInput", input); ("modelInvocationOutput", output)]).

(** Lines 252-284, with [trace] standing for [event['trace']]. *)
Definition trace_data (trace : value) : exc value :=
  let trace_data := [] in
  trace_data <- for_each (copy_key trace) trace_keys trace_data ;;
  has_inner <- contains "trace" trace ;;
  trace_data <-
    (if has_inner then
       inner_trace <- getitem trace "trace" ;;
       has_guardrail <- contains "guardrailTrace" inner_trace ;;
       trace_data <-
         (if has_guardrail then
            guardrail_trace <- getitem inner_trace "guardrailTrace" ;;
            guardrail <- guardrail_data guardrail_trace ;;
            Ok (set_key "guardrail" guardrail trace_data)
          else Ok trace_data) ;;
       has_orchestration <- contains "orchestrationTrace" inner_trace ;;
       if has_orchestration then
         orchestration_trace <- getitem inner_trace "orchestrationTrace" ;;
         orchestration <- orchestration_data orchestration_trace ;;
         Ok (set_key "orchestration" orchestration trace_data)
       else Ok trace_data
     else Ok trace_data) ;;
  Ok (VDict trace_data).

Definition error_types : list string :=
  ["accessDeniedException"; "badGatewayException"; "conflictException";
   "dependencyFailedException"; "internalServerException";
   "modelNotReadyException"; "resourceNotFoundException";
   "serviceQuotaExceededException"; "throttlingException";
   "validationException"].

(** Lines 291-295: the body of the loop over [error_types]. *)
Definition record_error (event : value) (error_type : string) (r : result)
  : exc result :=
  present <- contains error_type event ;;
  if present then
    detail <- getitem event error_type ;;
    message <- method_get detail "message" (VStr "Unknown error") ;;
    Ok (set_error (VDict [("type", VStr error_type); ("message", message)]) r)
  else Ok r.

(** Lines 170-296: the body of the loop over the events. *)
Definition process_event (event : value) (r : result) : exc result :=
  has_chunk <- contains "chunk" event ;;
  r <- (if has_chunk then
          chunk <- getitem event "chunk" ;;
          process_chunk chunk r
        else Ok r) ;;
  has_trace <- contains "trace" event ;;
  r <- (if has_trace then
          trace <- getitem event "trace" ;;
          t <- trace_data trace ;;
          Ok (append_trace t r)
        else Ok r) ;;
  for_each (record_error event) error_types r.

(** The events that the loop of line 170 goes through: none when the
    response has no [completion]. *)
Definition completion_events (response : value) : exc (list value) :=
  has_completion <- contains "completion" response ;;
  if has_completion then
    completion <- getitem response "completion" ;;
    iterate completion
  else Ok [].

(** Lines 161-309: the [try] block. *)
Definition try_block (response : value) : exc result :=
  events <- completion_events response ;;
  r <- for_each process_event events initial_result ;;
  has_content_type <- contains "contentType" response ;;
  r <- (if has_content_type then
          v <- getitem response "contentType" ;;
          Ok (set_contentType v r)
        else Ok r) ;;
  has_memory_id <- contains "memoryId" response ;;
  if has_memory_id then
    v <- getitem response "memoryId" ;;
    Ok (set_memoryId v r)
  else Ok r.

(** Lines 314-317: what the [except Exception] handler returns. *)
Definition fallback (e : exn) : value :=
  VDict [("text", VStr "Error processing agent response");
         ("error", VStr (str_of_exn e))].

Definition process_agent_response (response : value) : value :=
  match try_block response with
  | Ok r => to_dict r
  | Raise e => fallback e
  end.

End InvokeAgent.

(* ===================================================================== *)
(** ** QueryKnowledgeBase.py: [perform_retrieve_and_generate] *)
(* ===================================================================== *)

Module QueryKnowledgeBase.
Import Py.

(** [e.response] of a [ClientError]: its optional [Error] entry, with the
    optional [Code] and [Message] of that entry. *)
Record error_entry : Type := MkErrorEntry {
  Code : option string;
  Message : option string
}.

Inductive exception : Type :=
| ClientError (err : option error_entry)
| OtherException (description : string).

(** What one call of [retrieve_and_generate] does. *)
Inductive reply : Type :=
| Returns (response : value)
| Raises (e : exception).

(** [e.response.get('Error', {}).get('Code', 'Unknown')]. *)
Definition error_code (err : option error_entry) : string :=
  match err with
  | Some entry =>
      match Code entry with
      | Some c => c
      | None => "Unknown"
      end
  | None => "Unknown"
  end.

(** [e.response.get('Error', {}).get('Message', '')]. *)
Definition error_message (err : option error_entry) : string :=
  match err with
  | Some entry =>
      match Message entry with
      | Some m => m
      | None => ""
      end
  | None => ""
  end.

(** Line 62-64: the test for an invalid session id. *)
Definition is_invalid_session (err : option error_entry) : bool :=
  String.eqb (error_code err) "ValidationException"
  && is_substring "is not valid" (error_message err)
  && is_substring "Session with Id" (error_message err).

Section Executor.

(** The remote service is a black box with a state of its own: a call
    takes the keyword arguments and answers or raises. *)
Variable service : Type.
Variable retrieve_and_generate : service -> gmap string value -> reply * service.

(** [retrieve_params] is the dict object that the caller passed: the
    function works on that object, not on a copy, so its content is part
    of the state. [calls] logs the keyword arguments of each call issued
    ([**retrieve_params] unpacks the content of the dict at that time). *)
Record world : Type := MkWorld {
  remote : service;
  calls : list (gmap string value);
  retrieve_params : gmap string value
}.

Definition call_service (w : world) : reply * world :=
  let (r, s) := retrieve_and_generate (remote w) (retrieve_params w) in
  (r, MkWorld s (calls w ++ [retrieve_params w]) (retrieve_params w)).

(** [retrieve_params.pop('sessionId')]. *)
Definition pop_session_id (w : world) : world :=
  MkWorld (remote w) (calls w) (delete "sessionId" (retrieve_params w)).

(** Returns [(response, session_changed)] or raises. *)
Definition perform_retrieve_and_generate (w : world)
  : (value * bool + exception) * world :=
  let (first, w1) := call_service w in
  match first with
  | Returns response => (inl (response, false), w1)
  | Raises (ClientError err as e) =>
      if is_invalid_session err then
        match retrieve_params w1 !! "sessionId" with
        | Some old_session_id =>
            let w2 := pop_session_id w1 in
            let (second, w3) := call_service w2 in
            match second with
            | Returns response => (inl (response, true), w3)
            | Raises e2 => (inr e2, w3)
            end
        | None => (inr e, w1)
        end
      else (inr e, w1)
  | Raises e => (inr e, w1)
  end.

End Executor.

Arguments MkWorld {service} _ _ _.
Arguments remote {service} _.
Arguments calls {service} _.
Arguments retrieve_params {service} _.
Arguments call_service {service} _ _.
Arguments pop_session_id {service} _.
Arguments perform_retrieve_and_generate {service} _ _.

End QueryKnowledgeBase.

(* ===================================================================== *)
(** ** SyncKnowledgeBase.py: the wait loop of [handler] *)
(* ===================================================================== *)

Module SyncKnowledgeBase.

(** What one call of [get_ingestion_job] does: it answers with a status,
    or raises; the text is [str(e)]. *)
Inductive poll_reply : Type :=
| JobStatus (status : string)
| ClientError (message : string)
| OtherException (message : string).

(** The job and the clock as the loop sees them. Poll number [i] (from 0)
    gets [reply_at i] and takes [latency_at i] time units; the clock is
    read in the unit of [time.time()], and [time.sleep(10)] moves it by 10. *)
Record environment : Type := MkEnvironment {
  reply_at : nat -> poll_reply;
  latency_at : nat -> nat
}.

(** The dict returned by the handler; [body] is the argument of
    [json.dumps]. *)
Record response : Type := MkResponse {
  statusCode : Z;
  body : list (string * string)
}.

Definition completed : response :=
  MkResponse 200 [("message", "Knowledge base ingestion completed successfully")].

Definition failed (status : string) : response :=
  MkResponse 500
    [("error", "Knowledge base ingestion failed with status: " ++ status)].

Definition timed_out : response :=
  MkResponse 200
    [("message",
      "Knowledge base ingestion started but did not complete within timeout")].

Definition client_error (message : string) : response :=
  MkResponse 500 [("error", "AWS Error: " ++ message)].

Definition general_error (message : string) : response :=
  MkResponse 500 [("error", "Internal server error: " ++ message)].

(** What the handler returns, with the number of polls it made and the
    clock reading at that moment. *)
Record outcome : Type := MkOutcome {
  returned : response;
  polls : nat;
  finished_at : Z
}.

Definition max_wait_time : Z := 300.

Definition is_terminal (status : string) : bool :=
  String.eqb status "COMPLETE"
  || String.eqb status "FAILED" || String.eqb status "STOPPED".

(** Lines 62-96 and the handlers of lines 98-111. [n] counts the polls
    made so far and [now] is the clock. The recursion is bounded by [fuel];
    [wait_loop_total] below shows that the bound is never reached. *)
Fixpoint wait_loop (env : environment) (fuel : nat) (start_time now : Z) (n : nat)
  : option outcome :=
  match fuel with
  | O => None
  | S fuel' =>
      if (now - start_time <? max_wait_time)%Z then
        let now := (now + Z.of_nat (latency_at env n))%Z in
        match reply_at env n with
        | JobStatus status =>
            if String.eqb status "COMPLETE" then
              Some (MkOutcome completed (S n) now)
            else if String.eqb status "FAILED" || String.eqb status "STOPPED" then
              Some (MkOutcome (failed status) (S n) now)
            else wait_loop env fuel' start_time (now + 10)%Z (S n)
        | ClientError message =>
            Some (MkOutcome (client_error message) (S n) now)
        | OtherException message =>
            Some (MkOutcome (general_error message) (S n) now)
        end
      else Some (MkOutcome timed_out n now)
  end.

(** Each turn of the loop moves the clock by 10 at least, so 30 turns and
    a last test of the condition are all that can happen. *)
Definition enough_fuel : nat := 31.

(** Lines 59-96, entered at time [start_time]. *)
Definition wait_for_job (env : environment) (start_time : Z) : option outcome :=
  wait_loop env enough_fuel start_time start_time 0.

End SyncKnowledgeBase.

(* ===================================================================== *)
(** ** Vocabulary of the specification *)
(* ===================================================================== *)

Module Spec.
Import Py InvokeAgent.

(** The chunk that an event carries. *)
Definition chunk_of (event : value) : option value :=
  match event with
  | VDict d => lookup_key "chunk" d
  | _ => None
  end.

Definition decoded (b : list byte) : string :=
  match decode_utf8 b with
  | Ok s => s
  | Raise _ => ""
  end.

(** The decoded payload of a chunk, in its three representations: an
    object with a [bytes] attribute, a mapping with a [bytes] field, a
    mapping with a [text] field; the empty string when the chunk has no
    payload of these kinds. *)
Definition decoded_payload (chunk : value) : string :=
  match chunk with
  | VObj _ attrs =>
      match lookup_key "bytes" attrs with
      | Some (VBytes b) => decoded b
      | _ => ""
      end
  | VDict d =>
      match lookup_key "bytes" d with
      | Some (VBytes b) => decoded b
      | Some _ => ""
      | None =>
          match lookup_key "text" d with
          | Some (VStr s) => s
          | _ => ""
          end
      end
  | _ => ""
  end.

Definition event_payload (event : value) : string :=
  match chunk_of event with
  | Some chunk => decoded_payload chunk
  | None => ""
  end.

Definition concat_all (parts : list string) : string :=
  List.fold_right String.append "" parts.

(** The chunks of the chunk events of a stream, in stream order. *)
Definition chunks (events : list value) : list value :=
  List.flat_map (fun event =>
                   match chunk_of event with
                   | Some chunk => [chunk]
                   | None => []
                   end) events.

(** The event has [name] among its keys. *)
Definition bears (event : value) (name : string) : bool :=
  match contains name event with
  | Ok b => b
  | Raise _ => false
  end.

Definition bears_no_error (event : value) : Prop :=
  forall name, In name error_types -> bears event name = false.

(** The last of [names] that the event bears. *)
Fixpoint last_borne (event : value) (names : list string) : option string :=
  match names with
  | [] => None
  | name :: names' =>
      match last_borne event names' with
      | Some n => Some n
      | None => if bears event name then Some name else None
      end
  end.

(** [{type: name, message: detail.message or "Unknown error"}]. *)
Definition error_record (name : string) (detail : list (string * value)) : value :=
  VDict [("type", VStr name);
         ("message",
          match lookup_key "message" detail with
          | Some m => m
          | None => VStr "Unknown error"
          end)].

(** The output entry for a reference that is the mapping [d]: [content] is
    the text of the content when the content is a mapping that has one;
    [location] and [metadata] are copied when present. *)
Definition reference_entry (d : list (string * value)) : list (string * value) :=
  optional_item "content"
                (match lookup_key "content" d with
                 | Some (VDict c) => lookup_key "text" c
                 | _ => None
                 end)
  ++ optional_item "location" (lookup_key "location" d)
  ++ optional_item "metadata" (lookup_key "metadata" d).

(** The exception that the handler of line 247 catches and logs, if the
    block of lines 241-246 raises one. *)
Definition logged_attribute_error (chunk : value) : option exn :=
  match attribute chunk "attribution" with
  | Some attribution =>
      match attribute attribution "citations" with
      | Some cs =>
          match iterate cs with
          | Ok _ => None
          | Raise e => Some e
          end
      | None => None
      end
  | None => None
  end.

(** The response of [invoke_agent] whose [completion] is the list
    [events]. *)
Definition response_of (events : list value) : value :=
  VDict [("completion", VList events)].

Definition chunk_event (chunk : value) : value :=
  VDict [("chunk", chunk)].

(** The executor takes the retry path: the first call raises a
    [ClientError] that passes the invalid-session test, and the parameters
    have a [sessionId]. *)
Definition takes_retry_path {service : Type}
           (retrieve_and_generate
              : service -> gmap string value -> QueryKnowledgeBase.reply * service)
           (w : QueryKnowledgeBase.world service) : bool :=
  match fst (retrieve_and_generate (QueryKnowledgeBase.remote w)
                                   (QueryKnowledgeBase.retrieve_params w)) with
  | QueryKnowledgeBase.Raises (QueryKnowledgeBase.ClientError err) =>
      QueryKnowledgeBase.is_invalid_session err
      && match QueryKnowledgeBase.retrieve_params w !! "sessionId" with
         | Some _ => true
         | None => false
         end
  | _ => false
  end.

(** Time from [start_time] to the test of the loop condition that precedes
    poll number [k], when none of the polls before it ended the loop: each
    of them took its latency, and was followed by a sleep of 10. *)
Fixpoint elapsed_before (env : SyncKnowledgeBase.environment) (k : nat) : Z :=
  match k with
  | O => 0
  | S k' =>
      (elapsed_before env k'
       + Z.of_nat (SyncKnowledgeBase.latency_at env k') + 10)%Z
  end.

(** Poll number [i] answers with a status that does not end the loop. *)
Definition pending (env : SyncKnowledgeBase.environment) (i : nat) : Prop :=
  exists status,
    SyncKnowledgeBase.reply_at env i = SyncKnowledgeBase.JobStatus status
    /\ SyncKnowledgeBase.is_terminal status = false.

End Spec.

(* ===================================================================== *)
(** ** Sample inputs *)
(* ===================================================================== *)

Module Examples.
Import Py InvokeAgent Spec.

Definition bytes_of (s : string) : list byte := list_byte_of_string s.

(** Two chunks, [Hel] as a mapping and [lo] as an object, then a trace. *)
Definition hello_events : list value :=
  [chunk_event (VDict [("bytes", VBytes (bytes_of "Hel"))]);
   chunk_event (VObj "PayloadPart" [("bytes", VBytes (bytes_of "lo"))]);
   VDict [("trace", VDict [("agentId", VStr "A1"); ("sessionId", VStr "s-1")])]].

Definition throttling_event : value :=
  VDict [("throttlingException", VDict [("message", VStr "rate exceeded")])].

Definition validation_event : value :=
  VDict [("validationException", VDict [])].

(** An error, text, a second error without a message, more text. *)
Definition two_errors_events : list value :=
  [throttling_event;
   chunk_event (VDict [("bytes", VBytes (bytes_of "Hel"))]);
   validation_event;
   chunk_event (VDict [("text", VStr "lo")])].

(** A chunk whose bytes are not UTF-8. *)
Definition broken_chunk_event : value :=
  chunk_event (VDict [("bytes", VBytes [xff])]).

(** A citation with a well-formed reference and one that is [None]. *)
Definition citation_with_null_reference : value :=
  VDict [("retrievedReferences",
          VList [VDict [("location", VStr "s3://docs/a.txt")]; VNone])].

(** A chunk object whose [attribution.citations] is [None]. *)
Definition odd_attribution_chunk : value :=
  VObj "PayloadPart"
       [("attribution", VObj "Attribution" [("citations", VNone)])].

(** A service that knows no session [abc123]. *)
Definition stale_session_error : QueryKnowledgeBase.exception :=
  QueryKnowledgeBase.ClientError
    (Some (QueryKnowledgeBase.MkErrorEntry
             (Some "ValidationException")
             (Some "Session with Id abc123 is not valid"))).

Definition forgetful_service (s : unit) (kwargs : gmap string value)
  : QueryKnowledgeBase.reply * unit :=
  match kwargs !! "sessionId" with
  | Some _ => (QueryKnowledgeBase.Raises stale_session_error, s)
  | None =>
      (QueryKnowledgeBase.Returns
         (VDict [("sessionId", VStr "fresh-1");
                 ("output", VDict [("text", VStr "answer")])]), s)
  end.

(** A service that is throttled once it has been called. *)
Definition throttling_error : QueryKnowledgeBase.exception :=
  QueryKnowledgeBase.ClientError
    (Some (QueryKnowledgeBase.MkErrorEntry
             (Some "ThrottlingException") (Some "Rate exceeded"))).

Definition busy_service (called : bool) (kwargs : gmap string value)
  : QueryKnowledgeBase.reply * bool :=
  if called then (QueryKnowledgeBase.Raises throttling_error, true)
  else (QueryKnowledgeBase.Raises stale_session_error, true).

Definition stale_params : gmap string value :=
  {[ "input" := VDict [("text", VStr "what is a guardrail?")];
     "sessionId" := VStr "abc123" ]}.

Definition stale_attempt : QueryKnowledgeBase.world unit :=
  QueryKnowledgeBase.MkWorld tt [] stale_params.

Definition stale_attempt_busy : QueryKnowledgeBase.world bool :=
  QueryKnowledgeBase.MkWorld false [] stale_params.

(** A job that is [STARTING] twice and then [COMPLETE]; each poll takes 2
    time units. *)
Definition quick_job : SyncKnowledgeBase.environment :=
  SyncKnowledgeBase.MkEnvironment
    (fun i => match i with
              | 0 | 1 => SyncKnowledgeBase.JobStatus "STARTING"
              | _ => SyncKnowledgeBase.JobStatus "COMPLETE"
              end)
    (fun _ => 2).

(** A job that is [IN_PROGRESS] for 20 polls and [COMPLETE] at the next
    one; each poll takes 5 time units. *)
Definition slow_job : SyncKnowledgeBase.environment :=
  SyncKnowledgeBase.MkEnvironment
    (fun i => if Nat.ltb i 20
              then SyncKnowledgeBase.JobStatus "IN_PROGRESS"
              else SyncKnowledgeBase.JobStatus "COMPLETE")
    (fun _ => 5).

End Examples.

(* ===================================================================== *)
(** ** Generic facts *)
(* ===================================================================== *)

Section Basics.
Import Py.

Lemma append_nil_r (s : string) : s ++ "" = s.
Proof. induction s as [|a s IH]; simpl; [reflexivity | now rewrite IH]. Qed.

Lemma append_assoc (a b c : string) : (a ++ b) ++ c = a ++ (b ++ c).
Proof. induction a as [|x a IH]; simpl; [reflexivity | now rewrite IH]. Qed.

Lemma bind_Ok_inv {A B : Type} (m : exc A) (k : A -> exc B) (b : B) :
  bind m k = Ok b -> exists a, m = Ok a /\ k a = Ok b.
Proof. destruct m as [a|e]; simpl; [eauto | discriminate]. Qed.

Lemma for_each_app {A S : Type} (body : A -> S -> exc S) (xs ys : list A) (st : S) :
  for_each body (xs ++ ys) st = bind (for_each body xs st) (for_each body ys).
Proof.
  revert st; induction xs as [|x xs IH]; intros st; simpl; [reflexivity|].
  destruct (body x st) as [st'|e]; simpl; [apply IH | reflexivity].
Qed.

(** An invariant of the loop state that each turn preserves holds after
    the loop. *)
Lemma for_each_invariant {A S : Type} (P : S -> Prop) (body : A -> S -> exc S)
      (xs : list A) :
  (forall x s s', In x xs -> body x s = Ok s' -> P s -> P s') ->
  forall st st', for_each body xs st = Ok st' -> P st -> P st'.
Proof.
  induction xs as [|x xs IH]; intros Hstep st st' Hrun Hst; simpl in Hrun.
  - now inversion Hrun; subst.
  - apply bind_Ok_inv in Hrun as (s1 & H1 & H2).
    eapply IH; [|exact H2|].
    + intros y s s' Hy; apply Hstep; now right.
    + eapply Hstep; [now left | exact H1 | exact Hst].
Qed.

Lemma has_key_lookup {V : Type} (k : string) (d : list (string * V)) :
  has_key k d = true <-> exists v, lookup_key k d = Some v.
Proof.
  unfold has_key; destruct (lookup_key k d) as [v|]; split.
  - eauto.
  - reflexivity.
  - discriminate.
  - intros [v Hv]; discriminate.
Qed.

Lemma has_key_false {V : Type} (k : string) (d : list (string * V)) :
  has_key k d = false <-> lookup_key k d = None.
Proof.
  unfold has_key; destruct (lookup_key k d); split; congruence.
Qed.

End Basics.

(** Takes apart a hypothesis saying that a computation returned. *)
Ltac invert_ok H :=
  cbv beta in H;
  lazymatch type of H with
  | Py.bind ?m _ = Py.Ok _ =>
      let a := fresh "a" in
      let Ha := fresh "Ha" in
      apply bind_Ok_inv in H as (a & Ha & H)
  | Py.Ok _ = Py.Ok _ => inversion H; subst; clear H
  | Py.Raise _ = Py.Ok _ => discriminate H
  end.

(* ===================================================================== *)
(** ** The normaliser, step by step *)
(* ===================================================================== *)

Section NormalizerFacts.
Import Py InvokeAgent Spec.

Lemma add_text_inv (v : value) (r r' : result) :
  add_text v r = Ok r' ->
  exists s, v = VStr s /\ r' = set_text (text r ++ s) r.
Proof.
  unfold add_text, str_concat.
  destruct v; simpl; intros H; try discriminate H.
  inversion H; eauto.
Qed.

Lemma decoded_ok (b : list byte) (s : string) :
  decode_utf8 b = Ok s -> decoded b = s.
Proof. unfold decoded; now intros ->. Qed.

Lemma truthy_bytes_nil (b : list byte) :
  truthy (VBytes b) = false -> decoded b = "".
Proof. destruct b; [reflexivity | discriminate]. Qed.

(** The text step appends the decoded payload and touches nothing else. *)
Lemma add_chunk_text_ok (chunk : value) (r r' : result) :
  add_chunk_text chunk r = Ok r' ->
  text r' = text r ++ decoded_payload chunk
  /\ citations r' = citations r /\ traces r' = traces r /\ error r' = error r.
Proof.
  unfold add_chunk_text, truthy_attribute.
  destruct chunk as [| | | | |l|d|cls attrs]; simpl;
    try (intros H; inversion H; subst; now rewrite append_nil_r).
  - (* a mapping *)
    destruct (lookup_key "bytes" d) as [v|] eqn:Eb.
    + destruct v; try (intros H; inversion H; subst; now rewrite append_nil_r).
      intros H; invert_ok H.
      apply add_text_inv in H as (s & Hs & ->); inversion Hs; subst s.
      now rewrite (decoded_ok _ _ Ha).
    + destruct (lookup_key "text" d) as [t|] eqn:Et.
      * intros H; apply add_text_inv in H as (s & -> & ->); now simpl.
      * intros H; inversion H; subst; now rewrite append_nil_r.
  - (* an object *)
    destruct (lookup_key "bytes" attrs) as [a|] eqn:Eb.
    + destruct (truthy a) eqn:Ea.
      * intros H; invert_ok H.
        apply add_text_inv in H as (s & Hs & ->); inversion Hs; subst s.
        destruct a; simpl in Ha; try discriminate Ha;
          try (destruct (lookup_key "decode" _); discriminate Ha).
        now rewrite (decoded_ok _ _ Ha).
      * intros H; inversion H; subst.
        destruct a; rewrite ?append_nil_r; auto.
        now rewrite (truthy_bytes_nil _ Ea), append_nil_r.
    + intros H; inversion H; subst; now rewrite append_nil_r.
Qed.

(** The citation steps leave [text], [traces] and [error] alone. *)
Lemma add_dict_citations_ok (chunk : value) (r r' : result) :
  add_dict_citations chunk r = Ok r' ->
  text r' = text r /\ traces r' = traces r /\ error r' = error r.
Proof.
  unfold add_dict_citations.
  destruct chunk as [| | | | |l|d|cls attrs];
    try (intros H; inversion H; subst; now auto).
  destruct (lookup_key "attribution" d) as [attribution|];
    [|intros H; inversion H; subst; now auto].
  intros H; invert_ok H.
  destruct a; [|inversion H; subst; now auto].
  invert_ok H. invert_ok H.
  eapply (for_each_invariant
            (fun s => text s = text r /\ traces s = traces r /\ error s = error r));
    [|exact H|now auto].
  intros citation s s' _ Hstep Hs.
  invert_ok Hstep. invert_ok Hstep. exact Hs.
Qed.

Lemma fold_attribute_citations (items : list value) (r : result) :
  let r' := List.fold_left (fun r _ => append_citation attribute_citation r) items r in
  text r' = text r /\ traces r' = traces r /\ error r' = error r.
Proof.
  revert r; induction items as [|x items IH]; intros r; simpl; [now auto|].
  destruct (IH (append_citation attribute_citation r)) as (H1 & H2 & H3).
  now rewrite H1, H2, H3.
Qed.

Lemma add_attribute_citations_ok (chunk : value) (r : result) :
  let r' := add_attribute_citations chunk r in
  text r' = text r /\ traces r' = traces r /\ error r' = error r.
Proof.
  unfold add_attribute_citations.
  destruct (attribute chunk "attribution") as [attribution|]; [|now auto].
  destruct (attribute attribution "citations") as [cs|]; [|now auto].
  destruct (iterate cs) as [items|e]; [|now auto].
  apply fold_attribute_citations.
Qed.

Lemma process_chunk_ok (chunk : value) (r r' : result) :
  process_chunk chunk r = Ok r' ->
  text r' = text r ++ decoded_payload chunk
  /\ traces r' = traces r /\ error r' = error r.
Proof.
  unfold process_chunk; intros H.
  invert_ok H. invert_ok H. invert_ok H.
  apply add_chunk_text_ok in Ha as (T1 & _ & R1 & E1).
  apply add_dict_citations_ok in Ha0 as (T2 & R2 & E2).
  destruct (add_attribute_citations_ok chunk a0) as (T3 & R3 & E3).
  rewrite T3, T2, T1, R3, R2, R1, E3, E2, E1; auto.
Qed.

Lemma method_get_ok (v : value) (k : string) (default x : value) :
  method_get v k default = Ok x ->
  exists d, v = VDict d
            /\ x = match lookup_key k d with Some m => m | None => default end.
Proof.
  destruct v; simpl; intros H;
    try (destruct (lookup_key "get" _); discriminate H);
    try discriminate H.
  exists d; split; [reflexivity|].
  destruct (lookup_key k d); now inversion H.
Qed.

(** The loop over [error_types] (or any list of names): it leaves [text],
    [citations] and [traces] alone, and [error] ends as the record of the
    last name that the event bears, if it bears one. *)
Lemma record_errors_ok (event : value) (names : list string) (r r' : result) :
  for_each (record_error event) names r = Ok r' ->
  text r' = text r /\ citations r' = citations r /\ traces r' = traces r
  /\ match last_borne event names with
     | Some name =>
         exists detail, getitem event name = Ok (VDict detail)
                        /\ error r' = Some (error_record name detail)
     | None => error r' = error r
     end.
Proof.
  revert r; induction names as [|name names IH]; intros r H; simpl in H.
  - inversion H; subst; simpl; auto.
  - invert_ok H. apply IH in H as (T & C & R & E).
    unfold record_error in Ha. invert_ok Ha.
    simpl. unfold bears. rewrite Ha0.
    destruct a0.
    + invert_ok Ha. invert_ok Ha. invert_ok Ha.
      rewrite T, C, R; simpl; repeat split; auto.
      destruct (last_borne event names) as [n|]; [exact E|].
      apply method_get_ok in Ha2 as (detail & -> & ->).
      exists detail; split; [exact Ha1|]. rewrite E; reflexivity.
    + invert_ok Ha. rewrite T, C, R; repeat split; auto.
      destruct (last_borne event names) as [n|]; exact E.
Qed.

Lemma last_borne_none (event : value) (names : list string) :
  (forall name, In name names -> bears event name = false) ->
  last_borne event names = None.
Proof.
  induction names as [|n names IH]; intros H; simpl; [reflexivity|].
  rewrite IH by (intros; apply H; now right).
  now rewrite (H n (or_introl eq_refl)).
Qed.

Lemma last_borne_some (event : value) (names : list string) (name : string) :
  last_borne event names = Some name ->
  In name names /\ bears event name = true.
Proof.
  induction names as [|n names IH]; simpl; [discriminate|].
  destruct (last_borne event names) as [n'|].
  - intros H; inversion H; subst n'. destruct (IH eq_refl); auto.
  - destruct (bears event n) eqn:E; [|discriminate].
    intros H; inversion H; subst n. auto.
Qed.

Lemma last_borne_none_inv (event : value) (names : list string) :
  last_borne event names = None ->
  forall name, In name names -> bears event name = false.
Proof.
  induction names as [|n names IH]; simpl; [intros _ name []|].
  destruct (last_borne event names) as [n'|]; [discriminate|].
  destruct (bears event n) eqn:E; [discriminate|].
  intros _ name [<-|Hin]; [exact E | now apply IH].
Qed.

Lemma last_borne_app (event : value) (before after : list string) (name : string) :
  bears event name = true ->
  (forall n, In n after -> bears event n = false) ->
  last_borne event (before ++ name :: after) = Some name.
Proof.
  intros Hb Hafter; induction before as [|n before IH]; simpl.
  - now rewrite (last_borne_none _ _ Hafter), Hb.
  - now rewrite IH.
Qed.

(** What a chunk event must look like for its processing to return. *)
Lemma chunk_event_shape (event : value) (r r' : result) :
  process_event event r = Ok r' ->
  match chunk_of event with
  | Some chunk =>
      contains "chunk" event = Ok true /\ getitem event "chunk" = Ok chunk
  | None => contains "chunk" event = Ok false
  end.
Proof.
  unfold process_event; intros H.
  apply bind_Ok_inv in H as (has_chunk & Hin & H).
  apply bind_Ok_inv in H as (r1 & Hchunk & _).
  destruct event; simpl in *; try discriminate Hin.
  - (* a str: subscripting it raises *)
    destruct has_chunk; [discriminate Hchunk | exact Hin].
  - (* a list: subscripting it raises *)
    destruct has_chunk; [discriminate Hchunk | exact Hin].
  - (* a dict *)
    unfold has_key in *. destruct (lookup_key "chunk" d); auto.
Qed.

Lemma trace_step_ok (event : value) (has_trace : bool) (r r' : result) :
  (if has_trace then
     trace <- getitem event "trace" ;;
     t <- trace_data trace ;;
     Ok (append_trace t r)
   else Ok r) = Ok r' ->
  text r' = text r /\ citations r' = citations r /\ error r' = error r.
Proof.
  destruct has_trace; intros H.
  - invert_ok H. invert_ok H. invert_ok H. auto.
  - invert_ok H. auto.
Qed.

(** One turn of the loop over the events. *)
Lemma process_event_ok (event : value) (r r' : result) :
  process_event event r = Ok r' ->
  text r' = text r ++ event_payload event
  /\ (chunk_of event = None -> citations r' = citations r)
  /\ match last_borne event error_types with
     | Some name =>
         exists detail, getitem event name = Ok (VDict detail)
                        /\ error r' = Some (error_record name detail)
     | None => error r' = error r
     end.
Proof.
  intros H. pose proof (chunk_event_shape _ _ _ H) as Hshape.
  unfold process_event in H.
  apply bind_Ok_inv in H as (has_chunk & Hin & H).
  apply bind_Ok_inv in H as (r1 & Hchunk & H).
  apply bind_Ok_inv in H as (has_trace & _ & H).
  apply bind_Ok_inv in H as (r2 & Htrace & H).
  apply record_errors_ok in H as (T3 & C3 & _ & E3).
  apply trace_step_ok in Htrace as (T2 & C2 & E2).
  unfold event_payload.
  destruct (chunk_of event) as [chunk|].
  - destruct Hshape as (Hin' & Hget). rewrite Hin' in Hin; inversion Hin; subst has_chunk.
    apply bind_Ok_inv in Hchunk as (c & Hc & Hchunk).
    rewrite Hget in Hc; inversion Hc; subst c.
    apply process_chunk_ok in Hchunk as (T1 & _ & E1).
    rewrite T3, T2, T1. repeat split; [discriminate|].
    destruct (last_borne event error_types); [exact E3|]. now rewrite E3, E2, E1.
  - rewrite Hshape in Hin; inversion Hin; subst has_chunk. inversion Hchunk; subst r1.
    rewrite T3, T2, C3, C2, append_nil_r. repeat split; auto.
    destruct (last_borne event error_types); [exact E3|]. now rewrite E3, E2.
Qed.

Lemma chunks_payload (events : list value) :
  concat_all (List.map event_payload events)
  = concat_all (List.map decoded_payload (chunks events)).
Proof.
  unfold concat_all, chunks.
  induction events as [|ev events IH]; simpl; [reflexivity|].
  unfold event_payload at 1. destruct (chunk_of ev); simpl; now rewrite IH.
Qed.

Lemma chunks_nil (events : list value) :
  chunks events = [] -> Forall (fun ev => chunk_of ev = None) events.
Proof.
  induction events as [|ev events IH]; simpl; intros H; constructor;
    destruct (chunk_of ev); try discriminate H; auto.
Qed.

(** The loop over the events. *)
Lemma process_events_ok (events : list value) (r r' : result) :
  for_each process_event events r = Ok r' ->
  text r' = text r ++ concat_all (List.map event_payload events)
  /\ (Forall (fun ev => chunk_of ev = None) events -> citations r' = citations r)
  /\ (Forall bears_no_error events -> error r' = error r).
Proof.
  revert r; induction events as [|ev events IH]; intros r H; simpl in H.
  - inversion H; subst; simpl. now rewrite append_nil_r.
  - apply bind_Ok_inv in H as (r1 & H1 & H).
    apply IH in H as (T & C & E).
    apply process_event_ok in H1 as (T1 & C1 & E1).
    simpl. rewrite T, T1, append_assoc. repeat split.
    + intros Hall; inversion Hall; subst. rewrite C by assumption. now apply C1.
    + intros Hall; inversion Hall as [|? ? Hev Hrest]; subst.
      rewrite E by assumption.
      now rewrite (last_borne_none _ _ Hev) in E1.
Qed.

(** [error] is still unset after the loop exactly when it was unset before
    it and no event bore an error-variant key. *)
Lemma error_unset_after_loop (events : list value) (r r' : result) :
  for_each process_event events r = Ok r' ->
  error r' = None <-> error r = None /\ Forall bears_no_error events.
Proof.
  revert r; induction events as [|ev events IH]; intros r H; simpl in H.
  - inversion H; subst. split; [auto | now intros (? & _)].
  - apply bind_Ok_inv in H as (r1 & H1 & H).
    apply IH in H. apply process_event_ok in H1 as (_ & _ & E1).
    destruct (last_borne ev error_types) as [name|] eqn:Elast.
    + destruct E1 as (detail & _ & E1).
      destruct (last_borne_some _ _ _ Elast) as (Hin & Hbears).
      rewrite H, E1. split.
      * intros (Habs & _); discriminate Habs.
      * intros (_ & Hall). inversion Hall as [|? ? Hev _]; subst.
        rewrite (Hev name Hin) in Hbears; discriminate Hbears.
    + pose proof (last_borne_none_inv _ _ Elast) as Hnone.
      rewrite H, E1. split.
      * intros (Hr & Hall); split; [exact Hr | now constructor].
      * intros (Hr & Hall); split; [exact Hr | now inversion Hall].
Qed.

(** The [try] block: the fields that the loop fills are not touched after
    the loop. *)
Lemma try_block_ok (response : value) (r : result) :
  try_block response = Ok r ->
  exists events r1,
    completion_events response = Ok events
    /\ for_each process_event events initial_result = Ok r1
    /\ text r = text r1 /\ citations r = citations r1
    /\ traces r = traces r1 /\ error r = error r1.
Proof.
  unfold try_block; intros H.
  apply bind_Ok_inv in H as (events & Hev & H).
  apply bind_Ok_inv in H as (r1 & Hloop & H).
  apply bind_Ok_inv in H as (has_ct & _ & H).
  apply bind_Ok_inv in H as (r2 & Hct & H).
  apply bind_Ok_inv in H as (has_mid & _ & H).
  exists events, r1; repeat split; auto;
    destruct has_ct, has_mid;
    repeat match goal with
           | H : Py.bind _ _ = Ok _ |- _ =>
               let x := fresh in let Hx := fresh in
               apply bind_Ok_inv in H as (x & Hx & H)
           | H : Ok _ = Ok _ |- _ => inversion H; subst; clear H
           end; reflexivity.
Qed.

Lemma lookup_error_rest (r : result) :
  lookup_key "error"
             (optional_item "error" (error r)
              ++ optional_item "contentType" (contentType r)
              ++ optional_item "memoryId" (memoryId r))
  = error r.
Proof.
  destruct (error r), (contentType r), (memoryId r); reflexivity.
Qed.

End NormalizerFacts.

(* ===================================================================== *)
(** ** The normaliser: the record it returns *)
(* ===================================================================== *)

Section NormalizerClaims.
Import Py InvokeAgent Spec Examples.

(** C1 (as amended). When the stream is processed without reaching the
    fallback, the record has the keys [text], [citations] and [traces],
    which are the empty string and empty lists for an empty stream; it has
    no [error] key exactly when no event bears an error-variant key. *)
Theorem normal_result_keys (response : value) (events : list value) (r : result) :
  completion_events response = Ok events ->
  try_block response = Ok r ->
  exists t cs ts rest,
    process_agent_response response
    = VDict (("text", VStr t) :: ("citations", VList cs)
             :: ("traces", VList ts) :: rest)
    /\ (has_key "error" rest = false <-> Forall bears_no_error events)
    /\ (events = [] -> t = "" /\ cs = [] /\ ts = []).
Proof.
  intros Hev Hr. unfold process_agent_response. rewrite Hr.
  exists (text r), (citations r), (traces r). eexists. split; [reflexivity|].
  destruct (try_block_ok _ _ Hr) as (events' & r1 & Hev' & Hloop & T & C & R & E).
  rewrite Hev in Hev'; inversion Hev'; subst events'.
  split.
  - rewrite has_key_false, lookup_error_rest, E.
    rewrite (error_unset_after_loop _ _ _ Hloop). simpl. tauto.
  - intros ->. simpl in Hloop. inversion Hloop; subst r1.
    now rewrite T, C, R.
Qed.

Lemma normal_result_keys_witness :
  exists t cs ts rest,
    process_agent_response (response_of hello_events)
    = VDict (("text", VStr t) :: ("citations", VList cs)
             :: ("traces", VList ts) :: rest)
    /\ (has_key "error" rest = false <-> Forall bears_no_error hello_events)
    /\ (hello_events = [] -> t = "" /\ cs = [] /\ ts = []).
Proof.
  eapply (normal_result_keys (response_of hello_events) hello_events);
    vm_compute; reflexivity.
Defined.

(** C1 fails as stated: the empty stream is processed without reaching the
    fallback and the record has three keys, [error] not being one. *)
Lemma empty_stream_has_no_error_key :
  try_block (response_of []) = Ok initial_result
  /\ process_agent_response (response_of [])
     = VDict [("text", VStr ""); ("citations", VList []); ("traces", VList [])]
  /\ has_key "error"
       [("text", VStr ""); ("citations", VList []); ("traces", VList [])] = false.
Proof. repeat split. Qed.

(** C2 (as amended). The function returns a dict on every input; when an
    exception leaves the [try] block, that dict is the fallback: the fixed
    text and the message of the exception. *)
Theorem fallback_on_exception (response : value) :
  (exists d, process_agent_response response = VDict d)
  /\ forall e, try_block response = Raise e ->
       process_agent_response response
       = VDict [("text", VStr "Error processing agent response");
                ("error", VStr (str_of_exn e))].
Proof.
  unfold process_agent_response, fallback, to_dict.
  destruct (try_block response) as [r|e]; split; eauto.
  - discriminate.
  - intros e' H; now inversion H.
Qed.

Lemma fallback_on_exception_witness :
  process_agent_response VNone
  = VDict [("text", VStr "Error processing agent response");
           ("error", VStr "argument of type 'NoneType' is not iterable")].
Proof.
  exact (proj2 (fallback_on_exception VNone)
               (TypeError "argument of type 'NoneType' is not iterable")
               eq_refl).
Defined.

(** C2 fails as stated: iterating [None] at line 244 raises a [TypeError],
    which the handler of line 247 catches and logs; the function goes on
    and returns the record of the normal path, not the fallback. *)
Lemma logged_exception_is_not_fallback :
  logged_attribute_error odd_attribution_chunk
  = Some (TypeError "'NoneType' object is not iterable")
  /\ process_agent_response (response_of [chunk_event odd_attribution_chunk])
     = VDict [("text", VStr ""); ("citations", VList []); ("traces", VList [])].
Proof. split; reflexivity. Qed.

(** C6 (as amended). When the stream is processed without reaching the
    fallback, [text] is the concatenation, in stream order, of the decoded
    payloads of the chunk events; with no chunk event, [text] is empty and
    so is [citations]. *)
Theorem text_is_concatenation (response : value) (events : list value) (r : result) :
  completion_events response = Ok events ->
  try_block response = Ok r ->
  exists cs rest,
    process_agent_response response
    = VDict (("text", VStr (concat_all (List.map decoded_payload (chunks events))))
             :: ("citations", VList cs) :: rest)
    /\ (chunks events = [] -> cs = []).
Proof.
  intros Hev Hr. unfold process_agent_response. rewrite Hr.
  destruct (try_block_ok _ _ Hr) as (events' & r1 & Hev' & Hloop & T & C & R & E).
  rewrite Hev in Hev'; inversion Hev'; subst events'.
  apply process_events_ok in Hloop as (T1 & C1 & _).
  exists (citations r). eexists. split.
  - unfold to_dict. rewrite T, T1, chunks_payload. reflexivity.
  - intros Hnone. rewrite C, C1; [reflexivity|]. now apply chunks_nil.
Qed.

Lemma text_is_concatenation_witness :
  exists cs rest,
    process_agent_response (response_of hello_events)
    = VDict (("text", VStr "Hello") :: ("citations", VList cs) :: rest)
    /\ (chunks hello_events = [] -> cs = []).
Proof.
  exact (text_is_concatenation (response_of hello_events) hello_events
           (MkResult "Hello" []
              [VDict [("agentId", VStr "A1"); ("sessionId", VStr "s-1")]]
              None None None)
           eq_refl eq_refl).
Defined.

(** C6 fails as stated: after [Hel], a chunk that is not UTF-8 sends the
    function to the fallback and [text] is the fixed message; and a stream
    with no chunk event whose trace is [None] gives neither an empty [text]
    nor a [citations] key. *)
Lemma fallback_text_is_not_concatenation :
  process_agent_response
    (response_of [chunk_event (VDict [("bytes", VBytes (bytes_of "Hel"))]);
                  broken_chunk_event])
  = VDict [("text", VStr "Error processing agent response");
           ("error",
            VStr "'utf-8' codec can't decode byte 0xff in position 0: invalid start byte")]
  /\ chunks [VDict [("trace", VNone)]] = []
  /\ process_agent_response (response_of [VDict [("trace", VNone)]])
     = VDict [("text", VStr "Error processing agent response");
              ("error", VStr "argument of type 'NoneType' is not iterable")].
Proof. repeat split. Qed.

Lemma bears_dict (d : list (string * value)) (name : string) :
  bears (VDict d) name = has_key name d.
Proof. reflexivity. Qed.

(** C8 (as amended). When the stream is processed without reaching the
    fallback, [error] is the record of the last event that bears an
    error-variant key (of the last such key in the order of [error_types],
    should that event bear several): its type is the key and its message
    is the [message] of the event's detail, or [Unknown error]. The events
    around it are processed all the same: [text] holds the payloads of all
    the chunk events. *)
Theorem last_error_wins
        (response : value) (events pre post : list value) (r : result)
        (d : list (string * value)) (name : string) (detail : value)
        (before after : list string) :
  completion_events response = Ok events ->
  try_block response = Ok r ->
  events = (pre ++ VDict d :: post)%list ->
  error_types = (before ++ name :: after)%list ->
  lookup_key name d = Some detail ->
  Forall (fun n => lookup_key n d = None) after ->
  Forall bears_no_error post ->
  exists m cs ts rest,
    detail = VDict m
    /\ process_agent_response response
       = VDict (("text", VStr (concat_all (List.map decoded_payload (chunks events))))
                :: ("citations", VList cs) :: ("traces", VList ts)
                :: ("error", error_record name m) :: rest).
Proof.
  intros Hev Hr Hsplit Hnames Hname Hafter Hpost.
  unfold process_agent_response. rewrite Hr.
  destruct (try_block_ok _ _ Hr) as (events' & r1 & Hev' & Hloop & T & C & R & E).
  rewrite Hev in Hev'; inversion Hev'; subst events'.
  pose proof (process_events_ok _ _ _ Hloop) as (T1 & _ & _).
  rewrite Hsplit, for_each_app in Hloop.
  apply bind_Ok_inv in Hloop as (r_pre & _ & Hloop). simpl in Hloop.
  apply bind_Ok_inv in Hloop as (r_ev & Hstep & Hloop).
  apply process_events_ok in Hloop as (_ & _ & Epost).
  apply process_event_ok in Hstep as (_ & _ & Eev).
  rewrite Hnames, (last_borne_app _ before after name) in Eev.
  - destruct Eev as (m & Hget & Eev). simpl in Hget. rewrite Hname in Hget.
    inversion Hget; subst detail.
    exists m, (citations r), (traces r). eexists. split; [reflexivity|].
    unfold to_dict. rewrite E, (Epost Hpost), Eev, T, T1, chunks_payload.
    reflexivity.
  - rewrite bears_dict. apply has_key_lookup; eauto.
  - intros n Hn. rewrite bears_dict. apply has_key_false.
    rewrite Forall_forall in Hafter. apply Hafter.
    now apply list_elem_of_In.
Qed.

Lemma last_error_wins_witness :
  exists m cs ts rest,
    VDict [] = VDict m
    /\ process_agent_response (response_of two_errors_events)
       = VDict (("text", VStr "Hello")
                :: ("citations", VList cs) :: ("traces", VList ts)
                :: ("error", error_record "validationException" m) :: rest).
Proof.
  apply (last_error_wins
           (response_of two_errors_events) two_errors_events
           [throttling_event;
            chunk_event (VDict [("bytes", VBytes (bytes_of "Hel"))])]
           [chunk_event (VDict [("text", VStr "lo")])]
           (MkResult "Hello" [] []
              (Some (error_record "validationException" [])) None None)
           [("validationException", VDict [])] "validationException" (VDict [])
           ["accessDeniedException"; "badGatewayException"; "conflictException";
            "dependencyFailedException"; "internalServerException";
            "modelNotReadyException"; "resourceNotFoundException";
            "serviceQuotaExceededException"; "throttlingException"]
           []);
    try reflexivity.
  - constructor.
  - repeat constructor.
    intros n Hn; simpl in Hn.
    repeat (destruct Hn as [<-|Hn]; [reflexivity|]); destruct Hn.
Defined.

(** C8 fails as stated: the stream has a throttling event, but a later
    chunk that is not UTF-8 sends the function to the fallback, whose
    [error] is the text of the codec's exception; and an error-variant
    event whose detail is not a mapping does the same. *)
Lemma fallback_error_is_not_the_variant :
  process_agent_response (response_of [throttling_event; broken_chunk_event])
  = VDict [("text", VStr "Error processing agent response");
           ("error",
            VStr "'utf-8' codec can't decode byte 0xff in position 0: invalid start byte")]
  /\ process_agent_response
       (response_of [VDict [("throttlingException", VStr "rate exceeded")]])
     = VDict [("text", VStr "Error processing agent response");
              ("error", VStr "'str' object has no attribute 'get'")].
Proof. split; reflexivity. Qed.

Lemma set_text_same (r : result) : set_text (text r ++ "") r = r.
Proof. destruct r; unfold set_text; simpl. now rewrite append_nil_r. Qed.

(** The two representations of a chunk go through [process_chunk] alike. *)
Lemma process_chunk_bytes (b : list byte) (cls : string) (r : result) :
  process_chunk (VDict [("bytes", VBytes b)]) r
  = process_chunk (VObj cls [("bytes", VBytes b)]) r.
Proof.
  unfold process_chunk, add_chunk_text, truthy_attribute. simpl.
  destruct b as [|x b]; simpl.
  - unfold add_text; simpl. now rewrite set_text_same.
  - destruct (decode_utf8 (x :: b)); reflexivity.
Qed.

Lemma process_event_bytes
      (b : list byte) (cls : string) (others : list (string * value)) (r : result) :
  process_event (VDict (("chunk", VDict [("bytes", VBytes b)]) :: others)) r
  = process_event (VDict (("chunk", VObj cls [("bytes", VBytes b)]) :: others)) r.
Proof.
  unfold process_event.
  change (contains "chunk" (VDict (("chunk", ?c) :: others))) with (Ok true).
  cbn [bind]. 
  change (getitem (VDict (("chunk", ?c) :: others)) "chunk") with (Ok c).
  cbn [bind].
  rewrite (process_chunk_bytes b cls r).
  destruct (process_chunk (VObj cls [("bytes", VBytes b)]) r) as [r1|e];
    [|reflexivity].
  cbn [bind]. reflexivity.
Qed.

Lemma completion_events_list (events : list value) (envelope : list (string * value)) :
  completion_events (VDict (("completion", VList events) :: envelope)) = Ok events.
Proof. reflexivity. Qed.

(** The response enters the [try] block through its events only, apart
    from the fields copied after the loop. *)
Lemma try_block_same_loop (events1 events2 : list value) (envelope : list (string * value)) :
  for_each process_event events1 initial_result
  = for_each process_event events2 initial_result ->
  try_block (VDict (("completion", VList events1) :: envelope))
  = try_block (VDict (("completion", VList events2) :: envelope)).
Proof.
  intros Hloop. unfold try_block.
  rewrite !completion_events_list. cbn [bind]. rewrite Hloop.
  destruct (for_each process_event events2 initial_result) as [r|e];
    simpl; reflexivity.
Qed.

Lemma same_loop_bytes
      (b : list byte) (cls : string) (others : list (string * value))
      (pre post : list value) :
  for_each process_event
           (pre ++ VDict (("chunk", VDict [("bytes", VBytes b)]) :: others) :: post)
           initial_result
  = for_each process_event
             (pre ++ VDict (("chunk", VObj cls [("bytes", VBytes b)]) :: others) :: post)
             initial_result.
Proof.
  rewrite !for_each_app.
  destruct (for_each process_event pre initial_result) as [st|e];
    cbn [bind for_each]; [|reflexivity].
  now rewrite (process_event_bytes b cls others).
Qed.

(** C7. A chunk delivered as the mapping [{bytes: b}] and the same bytes
    delivered as an object with a [bytes] attribute give the same result,
    whatever the bytes, the rest of the event, the events before and
    after, and the rest of the response. *)
Theorem representation_transparency
        (b : list byte) (cls : string) (others envelope : list (string * value))
        (pre post : list value) :
  process_agent_response
    (VDict (("completion",
             VList (pre ++ VDict (("chunk", VDict [("bytes", VBytes b)]) :: others)
                        :: post))
            :: envelope))
  = process_agent_response
      (VDict (("completion",
               VList (pre ++ VDict (("chunk", VObj cls [("bytes", VBytes b)]) :: others)
                          :: post))
              :: envelope)).
Proof.
  unfold process_agent_response.
  now rewrite (try_block_same_loop _ _ envelope (same_loop_bytes b cls others pre post)).
Qed.

(** The instance of the specification: [b"abc"]. *)
Lemma representation_transparency_abc :
  process_agent_response
    (response_of [chunk_event (VDict [("bytes", VBytes (bytes_of "abc"))])])
  = process_agent_response
      (response_of [chunk_event (VObj "PayloadPart" [("bytes", VBytes (bytes_of "abc"))])])
  /\ process_agent_response
       (response_of [chunk_event (VDict [("bytes", VBytes (bytes_of "abc"))])])
     = VDict [("text", VStr "abc"); ("citations", VList []); ("traces", VList [])].
Proof. split; reflexivity. Qed.

Lemma reference_data_dict (d : list (string * value)) :
  reference_data (VDict d) = Ok (VDict (reference_entry d)).
Proof.
  unfold reference_data, reference_entry, copy_key; simpl. unfold has_key.
  destruct (lookup_key "content" d) as [content|]; simpl.
  - destruct content; simpl;
      try (destruct (lookup_key "location" d), (lookup_key "metadata" d);
           reflexivity).
    destruct (lookup_key "text" d0);
      destruct (lookup_key "location" d), (lookup_key "metadata" d); reflexivity.
  - destruct (lookup_key "location" d), (lookup_key "metadata" d); reflexivity.
Qed.

Lemma collect_from (ds : list (list (string * value))) (acc : list value) :
  for_each (fun ref references =>
              ref_data <- reference_data ref ;;
              Ok (references ++ [ref_data])%list)
           (List.map VDict ds) acc
  = Ok (acc ++ List.map (fun d => VDict (reference_entry d)) ds)%list.
Proof.
  revert acc; induction ds as [|d ds IH]; intros acc; simpl.
  - now rewrite app_nil_r.
  - rewrite reference_data_dict. simpl. rewrite IH, <- app_assoc. reflexivity.
Qed.

(** C9 (as amended). For a [retrievedReferences] list whose entries are
    mappings, the loop returns, without raising, one output entry per
    entry, in the same order. An entry without [content], or whose content
    is not a mapping, gives an output entry without [content]. A citation
    that has such a list (and no [generatedResponsePart]) gets it under
    [references]. *)
Theorem references_keep_length_and_order (ds : list (list (string * value))) :
  collect_references (List.map VDict ds)
  = Ok (List.map (fun d => VDict (reference_entry d)) ds)
  /\ List.length (List.map (fun d => VDict (reference_entry d)) ds)
     = List.length (List.map VDict ds)
  /\ (forall d,
        lookup_key "content" d = None
        \/ (exists v, lookup_key "content" d = Some v /\ is_dict v = false) ->
        has_key "content" (reference_entry d) = false)
  /\ (forall citation,
        lookup_key "generatedResponsePart" citation = None ->
        lookup_key "retrievedReferences" citation = Some (VList (List.map VDict ds)) ->
        citation_data (VDict citation)
        = Ok (VDict [("references",
                      VList (List.map (fun d => VDict (reference_entry d)) ds))])).
Proof.
  split; [|split; [|split]].
  - unfold collect_references. now rewrite collect_from.
  - now rewrite !length_map.
  - intros d [Hnone|(v & Hv & Hnd)]; unfold reference_entry; apply has_key_false.
    + rewrite Hnone.
      destruct (lookup_key "location" d), (lookup_key "metadata" d); reflexivity.
    + rewrite Hv. destruct v; try discriminate Hnd;
        destruct (lookup_key "location" d), (lookup_key "metadata" d); reflexivity.
  - intros citation Hpart Hrefs.
    unfold citation_data. simpl. unfold has_key. rewrite Hpart, Hrefs. simpl.
    unfold collect_references. rewrite collect_from. reflexivity.
Qed.

(** C9 fails as stated: an entry that is [None] makes the loop raise, and
    the function returns the fallback, with no citations at all. *)
Lemma null_reference_raises :
  collect_references [VDict [("location", VStr "s3://docs/a.txt")]; VNone]
  = Raise (TypeError "argument of type 'NoneType' is not iterable")
  /\ process_agent_response
       (response_of
          [chunk_event
             (VDict [("bytes", VBytes (bytes_of "Hel"));
                     ("attribution",
                      VDict [("citations", VList [citation_with_null_reference])])])])
     = VDict [("text", VStr "Error processing agent response");
              ("error", VStr "argument of type 'NoneType' is not iterable")].
Proof. split; reflexivity. Qed.

(** C10. A chunk that is a mapping whose [bytes] field is not of type
    [bytes] goes through the text step without an exception and without
    a change to [text], whether or not it has a [text] field; and [text]
    is the same after the event as before it. *)
Theorem non_bytes_field_drops_payload
        (d : list (string * value)) (v : value) (r : result) :
  lookup_key "bytes" d = Some v ->
  (forall b, v <> VBytes b) ->
  add_chunk_text (VDict d) r = Ok r
  /\ forall others r',
       process_event (VDict (("chunk", VDict d) :: others)) r = Ok r' ->
       text r' = text r.
Proof.
  intros Hv Hnb. split.
  - unfold add_chunk_text, truthy_attribute; simpl. rewrite Hv.
    destruct v; try reflexivity. now destruct (Hnb b).
  - intros others r' H. apply process_event_ok in H as (T & _).
    rewrite T. unfold event_payload; simpl. rewrite Hv.
    destruct v; try apply append_nil_r. now destruct (Hnb b).
Qed.

Lemma non_bytes_field_drops_payload_witness :
  add_chunk_text (VDict [("bytes", VStr "abc"); ("text", VStr "hello")])
                 initial_result
  = Ok initial_result
  /\ forall others r',
       process_event
         (VDict (("chunk", VDict [("bytes", VStr "abc"); ("text", VStr "hello")])
                 :: others))
         initial_result = Ok r' ->
       text r' = text initial_result.
Proof.
  apply (non_bytes_field_drops_payload
           [("bytes", VStr "abc"); ("text", VStr "hello")] (VStr "abc")
           initial_result).
  - reflexivity.
  - intros b; discriminate.
Defined.

End NormalizerClaims.

(* ===================================================================== *)
(** ** The executor: one retry without the session *)
(* ===================================================================== *)

Section ExecutorClaims.
Import Py QueryKnowledgeBase Spec Examples.

Context {service : Type}.
Variable retrieve_and_generate : service -> gmap string value -> reply * service.

Lemma invalid_session_iff (err : option error_entry) :
  is_invalid_session err = true
  <-> error_code err = "ValidationException"
      /\ is_substring "is not valid" (error_message err) = true
      /\ is_substring "Session with Id" (error_message err) = true.
Proof.
  unfold is_invalid_session. rewrite !andb_true_iff, String.eqb_eq. tauto.
Qed.

(** C3. A first call that returns gives [(response, False)]. A first call
    that raises a [ClientError] with code [ValidationException] and a
    message that contains [is not valid] and [Session with Id], for
    parameters that have a [sessionId], is followed by one more call, with
    the parameters less [sessionId]; what that call returns is returned
    with [True], and what it raises is raised. With no [sessionId], or
    with any other exception, the exception of the first call is raised
    again and there is no second call. *)
Theorem single_retry_without_session (w : world service) :
  let run := perform_retrieve_and_generate retrieve_and_generate w in
  let without := delete "sessionId" (retrieve_params w) in
  (forall response s1,
      retrieve_and_generate (remote w) (retrieve_params w) = (Returns response, s1) ->
      fst run = inl (response, false)
      /\ calls (snd run) = (calls w ++ [retrieve_params w])%list)
  /\ (forall err s1 old_session_id,
         retrieve_and_generate (remote w) (retrieve_params w)
         = (Raises (ClientError err), s1) ->
         error_code err = "ValidationException" ->
         is_substring "is not valid" (error_message err) = true ->
         is_substring "Session with Id" (error_message err) = true ->
         retrieve_params w !! "sessionId" = Some old_session_id ->
         calls (snd run) = (calls w ++ [retrieve_params w; without])%list
         /\ fst run = match fst (retrieve_and_generate s1 without) with
                      | Returns response => inl (response, true)
                      | Raises e2 => inr e2
                      end)
  /\ (forall err s1,
         retrieve_and_generate (remote w) (retrieve_params w)
         = (Raises (ClientError err), s1) ->
         retrieve_params w !! "sessionId" = None ->
         fst run = inr (ClientError err)
         /\ calls (snd run) = (calls w ++ [retrieve_params w])%list)
  /\ (forall e s1,
         retrieve_and_generate (remote w) (retrieve_params w) = (Raises e, s1) ->
         (forall err, e = ClientError err ->
                      ~ (error_code err = "ValidationException"
                         /\ is_substring "is not valid" (error_message err) = true
                         /\ is_substring "Session with Id" (error_message err) = true)) ->
         fst run = inr e
         /\ calls (snd run) = (calls w ++ [retrieve_params w])%list).
Proof.
  cbv zeta. unfold perform_retrieve_and_generate, call_service.
  split; [|split; [|split]].
  - intros response s1 Hfirst. rewrite Hfirst. split; reflexivity.
  - intros err s1 old_session_id Hfirst Hcode Hvalid Hsession Hsid.
    rewrite Hfirst. simpl.
    rewrite (proj2 (invalid_session_iff err) (conj Hcode (conj Hvalid Hsession))).
    rewrite Hsid. simpl.
    destruct (retrieve_and_generate s1 _) as [[response|e2] s2]; simpl;
      split; try reflexivity; now rewrite <- app_assoc.
  - intros err s1 Hfirst Hsid. rewrite Hfirst. simpl. rewrite Hsid.
    destruct (is_invalid_session err); split; reflexivity.
  - intros e s1 Hfirst Hother. rewrite Hfirst.
    destruct e as [err|description]; [|split; reflexivity]. simpl.
    destruct (is_invalid_session err) eqn:E; [|split; reflexivity].
    apply invalid_session_iff in E. now destruct (Hother err eq_refl).
Qed.

(** C4 (as amended). After the call, the caller's dict is what it was,
    except on the retry path, where its [sessionId] has been removed from
    it in place; this is so whether the second call returns or raises. *)
Theorem caller_params_after_execute (w : world service) :
  retrieve_params (snd (perform_retrieve_and_generate retrieve_and_generate w))
  = if takes_retry_path retrieve_and_generate w
    then delete "sessionId" (retrieve_params w)
    else retrieve_params w.
Proof.
  unfold perform_retrieve_and_generate, call_service, takes_retry_path.
  destruct (retrieve_and_generate (remote w) (retrieve_params w))
    as [[response|[err|description]] s1]; simpl; try reflexivity.
  destruct (is_invalid_session err); simpl; [|reflexivity].
  destruct (retrieve_params w !! "sessionId"); simpl; [|reflexivity].
  destruct (retrieve_and_generate s1 _) as [[response|e2] s2]; reflexivity.
Qed.

End ExecutorClaims.

Section ExecutorExamples.
Import Py QueryKnowledgeBase Spec Examples.

Lemma single_retry_without_session_witness :
  calls (snd (perform_retrieve_and_generate forgetful_service stale_attempt))
  = [stale_params; delete "sessionId" stale_params]
  /\ fst (perform_retrieve_and_generate forgetful_service stale_attempt)
     = inl (VDict [("sessionId", VStr "fresh-1");
                   ("output", VDict [("text", VStr "answer")])], true).
Proof.
  exact (proj1 (proj2 (single_retry_without_session forgetful_service stale_attempt))
               (Some (MkErrorEntry (Some "ValidationException")
                                   (Some "Session with Id abc123 is not valid")))
               tt (VStr "abc123") eq_refl eq_refl eq_refl eq_refl eq_refl).
Defined.

(** C4 fails as stated: on the retry path the caller's dict has lost its
    [sessionId] when the function returns, and also when it raises. *)
Lemma retry_mutates_caller_params :
  retrieve_params stale_attempt !! "sessionId" = Some (VStr "abc123")
  /\ (exists response,
         fst (perform_retrieve_and_generate forgetful_service stale_attempt)
         = inl (response, true))
  /\ retrieve_params
       (snd (perform_retrieve_and_generate forgetful_service stale_attempt))
     !! "sessionId" = None
  /\ fst (perform_retrieve_and_generate busy_service stale_attempt_busy)
     = inr throttling_error
  /\ retrieve_params
       (snd (perform_retrieve_and_generate busy_service stale_attempt_busy))
     !! "sessionId" = None.
Proof.
  repeat split; try (vm_compute; reflexivity).
  eexists; vm_compute; reflexivity.
Qed.

End ExecutorExamples.

(* ===================================================================== *)
(** ** The poller *)
(* ===================================================================== *)

Section PollerFacts.
Import SyncKnowledgeBase Spec Examples.
Open Scope Z_scope.

Variable env : environment.

Lemma elapsed_before_succ (k : nat) :
  elapsed_before env k + 10 <= elapsed_before env (S k).
Proof. simpl; lia. Qed.

Lemma elapsed_before_lower (k : nat) : 10 * Z.of_nat k <= elapsed_before env k.
Proof. induction k as [|k IH]; [simpl; lia|]. pose proof (elapsed_before_succ k); lia. Qed.

Lemma elapsed_before_mono (i k : nat) :
  (i <= k)%nat -> elapsed_before env i <= elapsed_before env k.
Proof.
  induction 1 as [|k Hle IH]; [lia|]. pose proof (elapsed_before_succ k); lia.
Qed.

(** The loop always returns: the fuel is enough for the time left. *)
Lemma wait_loop_total (start_time : Z) (fuel : nat) :
  forall (now : Z) (n : nat),
    max_wait_time <= (now - start_time) + 10 * Z.of_nat fuel ->
    exists out, wait_loop env (S fuel) start_time now n = Some out.
Proof.
  induction fuel as [|fuel IH]; intros now n Hfuel;
    cbn [wait_loop];
    destruct (now - start_time <? max_wait_time) eqn:Hlt; eauto;
    destruct (reply_at env n) as [status| |]; eauto;
    destruct (String.eqb status "COMPLETE"); eauto;
    destruct (String.eqb status "FAILED" || String.eqb status "STOPPED"); eauto.
  - apply Z.ltb_lt in Hlt; lia.
  - apply IH. unfold max_wait_time in *. lia.
Qed.

Lemma pending_not_terminal (status : string) :
  is_terminal status = false ->
  String.eqb status "COMPLETE" = false
  /\ String.eqb status "FAILED" || String.eqb status "STOPPED" = false.
Proof.
  unfold is_terminal. destruct (String.eqb status "COMPLETE"); simpl; auto.
  discriminate.
Qed.

(** [j] turns of the loop whose polls are all pending. *)
Lemma wait_loop_skip (start_time : Z) (j : nat) :
  forall (fuel n : nat),
    (forall i, (n <= i < n + j)%nat -> pending env i) ->
    (forall i, (n <= i < n + j)%nat -> elapsed_before env i < max_wait_time) ->
    wait_loop env (j + fuel) start_time (start_time + elapsed_before env n) n
    = wait_loop env fuel start_time (start_time + elapsed_before env (n + j)) (n + j).
Proof.
  induction j as [|j IH]; intros fuel n Hpending Htime.
  - now rewrite Nat.add_0_r.
  - cbn [Nat.add wait_loop].
    replace (start_time + elapsed_before env n - start_time)
      with (elapsed_before env n) by lia.
    pose proof (Htime n ltac:(lia)) as Hn. apply Z.ltb_lt in Hn. rewrite Hn.
    destruct (Hpending n ltac:(lia)) as (status & -> & Hst).
    destruct (pending_not_terminal _ Hst) as (-> & ->).
    replace (start_time + elapsed_before env n + Z.of_nat (latency_at env n) + 10)
      with (start_time + elapsed_before env (S n)) by (simpl; lia).
    rewrite IH.
    + now replace (S n + j)%nat with (n + S j)%nat by lia.
    + intros i Hi; apply Hpending; lia.
    + intros i Hi; apply Htime; lia.
Qed.

(** The loop up to poll number [k], when the polls before it are pending
    and the test that precedes it is reached in time. *)
Lemma wait_for_job_reaches (start_time : Z) (k : nat) :
  (forall i, (i < k)%nat -> pending env i) ->
  (forall i, (i < k)%nat -> elapsed_before env i < max_wait_time) ->
  exists fuel,
    wait_for_job env start_time
    = wait_loop env (S fuel) start_time (start_time + elapsed_before env k) k.
Proof.
  intros Hpending Htime.
  assert (k <= 30)%nat as Hk.
  { destruct k as [|k]; [lia|].
    pose proof (Htime k ltac:(lia)). pose proof (elapsed_before_lower k).
    unfold max_wait_time in *. lia. }
  exists (30 - k)%nat. unfold wait_for_job, enough_fuel.
  replace 31%nat with (k + S (30 - k))%nat by lia.
  replace start_time with (start_time + elapsed_before env 0) at 2 by (simpl; lia).
  rewrite wait_loop_skip; [reflexivity| |]; intros i Hi; [apply Hpending|apply Htime]; lia.
Qed.

End PollerFacts.

Section PollerClaims.
Import SyncKnowledgeBase Spec Examples.
Open Scope Z_scope.

(** C5 (as amended). The wait always returns. If the polls before poll
    number [k] are pending, then: when the test before poll [k] finds the
    elapsed time below [max_wait_time] (300) and the poll shows [COMPLETE],
    the result is the success response, after [k + 1] polls; when it shows
    [FAILED] or [STOPPED], the result is the failure response that quotes
    the status; and when that test is the first to find the elapsed time
    at [max_wait_time] or more, the result is the timeout response, after
    [k] polls. The timeout response has status code 200 and differs from
    the success response. Between two polls the clock moves by the time
    of the poll and 10. In particular STARTING, STARTING, COMPLETE gives
    success after exactly 3 polls. *)
Theorem poll_until_terminal_or_timeout (env : environment) (start_time : Z) :
  (exists out, wait_for_job env start_time = Some out)
  /\ (forall k,
        (forall i, (i < k)%nat -> pending env i) ->
        (forall i, (i < k)%nat -> elapsed_before env i < max_wait_time) ->
        (elapsed_before env k < max_wait_time ->
         reply_at env k = JobStatus "COMPLETE" ->
         wait_for_job env start_time
         = Some (MkOutcome completed (S k)
                   (start_time + elapsed_before env k + Z.of_nat (latency_at env k))))
        /\ (elapsed_before env k < max_wait_time ->
            forall status,
              reply_at env k = JobStatus status ->
              status = "FAILED" \/ status = "STOPPED" ->
              wait_for_job env start_time
              = Some (MkOutcome (failed status) (S k)
                        (start_time + elapsed_before env k
                         + Z.of_nat (latency_at env k))))
        /\ (max_wait_time <= elapsed_before env k ->
            wait_for_job env start_time
            = Some (MkOutcome timed_out k (start_time + elapsed_before env k))))
  /\ (statusCode timed_out = 200 /\ timed_out <> completed)
  /\ (forall k, elapsed_before env (S k)
                = elapsed_before env k + Z.of_nat (latency_at env k) + 10)
  /\ (reply_at env 0%nat = JobStatus "STARTING" ->
      reply_at env 1%nat = JobStatus "STARTING" ->
      reply_at env 2%nat = JobStatus "COMPLETE" ->
      elapsed_before env 2 < max_wait_time ->
      exists finished,
        wait_for_job env start_time = Some (MkOutcome completed 3 finished)).
Proof.
  split; [|split; [|split; [|split]]].
  - apply wait_loop_total. unfold max_wait_time; lia.
  - intros k Hpending Htime.
    destruct (wait_for_job_reaches env start_time k Hpending Htime) as (fuel & ->).
    cbn [wait_loop].
    replace (start_time + elapsed_before env k - start_time)
      with (elapsed_before env k) by lia.
    repeat split.
    + intros Hk Hreply. apply Z.ltb_lt in Hk. now rewrite Hk, Hreply.
    + intros Hk status Hreply Hstatus. apply Z.ltb_lt in Hk. rewrite Hk, Hreply.
      now destruct Hstatus as [-> | ->].
    + intros Hk. apply Z.ltb_ge in Hk. now rewrite Hk.
  - split; [reflexivity | discriminate].
  - reflexivity.
  - intros H0 H1 H2 Htime.
    assert (forall i, (i < 2)%nat -> pending env i) as Hpending.
    { intros i Hi. exists "STARTING". split; [|reflexivity].
      destruct i as [|[|i]]; [assumption | assumption | lia]. }
    assert (forall i, (i < 2)%nat -> elapsed_before env i < max_wait_time) as Hbefore.
    { intros i Hi. pose proof (elapsed_before_mono env i 2 ltac:(lia)). lia. }
    destruct (wait_for_job_reaches env start_time 2 Hpending Hbefore) as (fuel & ->).
    cbn [wait_loop].
    replace (start_time + elapsed_before env 2 - start_time)
      with (elapsed_before env 2) by lia.
    apply Z.ltb_lt in Htime. rewrite Htime, H2. simpl. eauto.
Qed.

Lemma poll_until_terminal_or_timeout_witness :
  wait_for_job quick_job 1000 = Some (MkOutcome completed 3 1026).
Proof.
  refine (proj1 (proj1 (proj2 (poll_until_terminal_or_timeout quick_job 1000))
                       2%nat _ _) _ _).
  - intros i Hi. exists "STARTING". split; [|reflexivity].
    destruct i as [|[|i]]; [reflexivity | reflexivity | lia].
  - intros i Hi. destruct i as [|[|i]]; [vm_compute; reflexivity | vm_compute; reflexivity | lia].
  - vm_compute; reflexivity.
  - reflexivity.
Defined.

(** C5 fails as stated: with polls of 5 time units, the test after the
    twentieth poll reads an elapsed time of 300, which does not exceed
    [max_wait_time], and the handler returns the timeout response; poll
    number 20 would have shown [COMPLETE]. *)
Lemma timeout_without_exceeding :
  wait_for_job slow_job 0 = Some (MkOutcome timed_out 20 300)
  /\ ~ (300 - 0 > max_wait_time)
  /\ reply_at slow_job 20 = JobStatus "COMPLETE".
Proof.
  split; [vm_compute; reflexivity|]. split; [unfold max_wait_time; lia | reflexivity].
Qed.

End PollerClaims.
